(** * serial-monitor.py: a timed raw capture from a serial port

    The script opens [/dev/ttyUSB0], polls the driver's receive buffer
    for ten seconds, prints whatever it reads in hexadecimal and as a
    Python bytes literal, prints ["\nDone"] and closes the port.

    Layout:
    - [Render]: the two renderings used in the f-string, [bytes.hex()]
      and the formatting of a [bytes] object (its [repr]), with the
      readers that go the other way;
    - [Device]: the world the script talks to (clock, serial driver,
      console), as a state-and-exception monad over a scripted line;
    - [Monitor]: the script itself, statement by statement;
    - the vocabulary used to describe runs and their logs;
    - facts about the renderings, one turn of the loop, the loop, the
      whole run;
    - the properties of the specification, C1 to C10.

    The wall clock is kept in whole milliseconds and [time.sleep(0.1)]
    reads [sleep 100].  [time.time()] returns the clock in seconds as a
    binary64 float, and the loop test [time.time() - start < 10] is the
    binary64 subtraction and comparison, so that the rounding of the
    test is the one of the script. *)

From Stdlib Require Import List ZArith Lia Bool Arith.
From Stdlib Require Import Ascii String.
From Stdlib Require Import Strings.Byte.
From Stdlib Require Floats.PrimFloat Numbers.Cyclic.Int63.Uint63.
Import ListNotations.

Open Scope string_scope.

(* ================================================================== *)
(** ** Renderings of a chunk *)

Module Render.

(** The digit table of [bytes.hex()] and of the [\xNN] escape. *)
Definition hexdigits : string := "0123456789abcdef".

Definition hexdigit (n : N) : ascii :=
  match String.get (N.to_nat n) hexdigits with
  | Some c => c
  | None => "0"%char
  end.

Definition hex_byte (b : byte) : string :=
  let n := Byte.to_N b in
  String (hexdigit (N.shiftr (N.land n 240) 4))
    (String (hexdigit (N.land n 15)) EmptyString).

(** [data.hex()]: two lowercase digits per byte, no separator. *)
Fixpoint hex (data : list byte) : string :=
  match data with
  | [] => EmptyString
  | b :: rest => hex_byte b ++ hex rest
  end.

(** Value of one hexadecimal digit, as [bytes.fromhex] reads it. *)
Definition unhexdigit (c : ascii) : option N :=
  let n := N_of_ascii c in
  if (48 <=? n)%N && (n <=? 57)%N then Some (n - 48)%N
  else if (97 <=? n)%N && (n <=? 102)%N then Some (n - 87)%N
  else if (65 <=? n)%N && (n <=? 70)%N then Some (n - 55)%N
  else None.

Definition byte_of_nibbles (hi lo : N) : option byte :=
  Byte.of_N (16 * hi + lo).

(** The decoder the round trip is stated against: pairs of digits. *)
Fixpoint fromhex (s : string) : option (list byte) :=
  match s with
  | EmptyString => Some []
  | String a EmptyString => None
  | String a (String b rest) =>
      match unhexdigit a, unhexdigit b with
      | Some hi, Some lo =>
          match byte_of_nibbles hi lo, fromhex rest with
          | Some x, Some l => Some (x :: l)
          | _, _ => None
          end
      | _, _ => None
      end
  end.

Definition is_lower_hex (c : ascii) : bool :=
  let n := N_of_ascii c in
  ((48 <=? n)%N && (n <=? 57)%N) || ((97 <=? n)%N && (n <=? 102)%N).

Definition is_printable (c : ascii) : bool :=
  let n := N_of_ascii c in (32 <=? n)%N && (n <? 127)%N.

Fixpoint forallb_string (p : ascii -> bool) (s : string) : bool :=
  match s with
  | EmptyString => true
  | String c rest => p c && forallb_string p rest
  end.

(** *** Formatting a [bytes] object

    [f"{data}"] formats [data] with an empty format specification, which
    for [bytes] is [str(data)], that is [repr(data)]: a [b'...'] literal
    with escapes.  The steps below are the ones of the interpreter's
    bytes representation: choice of the quote, then one byte at a time. *)

Definition squote : byte := x27.
Definition dquote : byte := x22.
Definition backslash : byte := x5c.

Definition quote_of (data : list byte) : byte :=
  if existsb (Byte.eqb squote) data && negb (existsb (Byte.eqb dquote) data)
  then dquote else squote.

Definition chr (b : byte) : string := String (ascii_of_byte b) EmptyString.

Definition repr_byte (quote c : byte) : string :=
  if Byte.eqb c quote || Byte.eqb c backslash then chr backslash ++ chr c
  else if Byte.eqb c x09 then "\t"
  else if Byte.eqb c x0a then "\n"
  else if Byte.eqb c x0d then "\r"
  else if (Byte.to_N c <? 32)%N || (127 <=? Byte.to_N c)%N
       then "\x" ++ hex_byte c
  else chr c.

Fixpoint repr_body (quote : byte) (data : list byte) : string :=
  match data with
  | [] => EmptyString
  | c :: rest => repr_byte quote c ++ repr_body quote rest
  end.

Definition bytes_repr (data : list byte) : string :=
  let q := quote_of data in
  "b" ++ chr q ++ repr_body q data ++ chr q.

(** The bytes themselves as characters, one for one: the rendering the
    specification describes as raw, for comparison with [bytes_repr]. *)
Definition raw_text (data : list byte) : string :=
  string_of_list_ascii (map ascii_of_byte data).

(** [f"Received: {data.hex()} | ASCII: {data}"] *)
Definition received_line (data : list byte) : string :=
  "Received: " ++ hex data ++ " | ASCII: " ++ bytes_repr data.

(** What a reader of the console does with a line: recognise the
    ["Received: "] label and cut the hexadecimal field at the first
    blank. *)
Definition label : string := "Received: ".

Fixpoint starts_with (p s : string) : bool :=
  match p, s with
  | EmptyString, _ => true
  | String a p', String b s' => Ascii.eqb a b && starts_with p' s'
  | String _ _, EmptyString => false
  end.

Definition is_received (line : string) : bool := starts_with label line.

Fixpoint until_blank (s : string) : string :=
  match s with
  | EmptyString => EmptyString
  | String c rest =>
      if Ascii.eqb c " "%char then EmptyString else String c (until_blank rest)
  end.

Fixpoint drop (n : nat) (s : string) : string :=
  match n, s with
  | O, _ => s
  | S k, String _ rest => drop k rest
  | S _, EmptyString => EmptyString
  end.

Definition hex_field (line : string) : string :=
  until_blank (drop (String.length label) line).


(** The text field is what follows the separator. *)
Definition separator : string := " | ASCII: ".

Definition text_field (line : string) : string :=
  drop (String.length label + String.length (hex_field line)
        + String.length separator) line.

(** Reading a bytes literal back (the inverse of [bytes_repr] that a
    Python reader would apply to the text field). *)
Definition byte_of_hex (h l : ascii) : option byte :=
  match unhexdigit h, unhexdigit l with
  | Some hi, Some lo => byte_of_nibbles hi lo
  | _, _ => None
  end.

Definition unescape (e : ascii) : option byte :=
  if Ascii.eqb e "t" then Some x09
  else if Ascii.eqb e "n" then Some x0a
  else if Ascii.eqb e "r" then Some x0d
  else if Ascii.eqb e (ascii_of_byte backslash) then Some backslash
  else if Ascii.eqb e (ascii_of_byte squote) then Some squote
  else if Ascii.eqb e (ascii_of_byte dquote) then Some dquote
  else None.

Fixpoint unrepr_body (q : ascii) (s : string) : option (list byte) :=
  match s with
  | EmptyString => None
  | String c rest =>
      if Ascii.eqb c q then
        match rest with EmptyString => Some [] | String _ _ => None end
      else if Ascii.eqb c (ascii_of_byte backslash) then
        match rest with
        | EmptyString => None
        | String e rest1 =>
            if Ascii.eqb e "x" then
              match rest1 with
              | String h (String l rest2) =>
                  match byte_of_hex h l, unrepr_body q rest2 with
                  | Some b, Some bs => Some (b :: bs)
                  | _, _ => None
                  end
              | _ => None
              end
            else
              match unescape e, unrepr_body q rest1 with
              | Some b, Some bs => Some (b :: bs)
              | _, _ => None
              end
        end
      else
        match unrepr_body q rest with
        | Some bs => Some (byte_of_ascii c :: bs)
        | None => None
        end
  end.

Definition unrepr (s : string) : option (list byte) :=
  match s with
  | String b (String q rest) =>
      if Ascii.eqb b "b"
         && (Ascii.eqb q (ascii_of_byte squote) || Ascii.eqb q (ascii_of_byte dquote))
      then unrepr_body q rest
      else None
  | _ => None
  end.


End Render.

Import Render.

(* ================================================================== *)
(** ** The world of the script: clock, serial driver, console *)

(** The serial library and the operating system are not part of the
    script; they are modelled as follows.
    - The line is a script of arrivals.  Each call to the driver
      ([port.in_waiting], [port.read]) first lets the line move by one
      step: the bytes that arrived since the previous call join the
      receive buffer, or the call fails because the device is gone.
      When the script is used up nothing more arrives.
    - Buffered bytes stay buffered, in order, until a read takes them.
    - [port.read(size)] returns at once when [size] bytes are buffered;
      otherwise it waits for the port's timeout and returns what there
      is.
    - The clock counts whole milliseconds.  It moves in [time.sleep],
      by the time asked for, and in a read that waits; the other calls
      take no time.  [time.time()] returns it in seconds, as the
      binary64 float nearest to the quotient by 1000.
    - [print], [time.time], [time.sleep] and [port.close] do not fail.
    Every call is recorded in a log, which is what the properties read. *)

Module Device.

(** The only exception the driver raises ([serial.SerialException];
    the specification calls it DeviceError). *)
Inductive exn : Type := SerialException.

(** What happens on the wire between two calls to the driver: some
    bytes (possibly none) reach the receive buffer, or the device is
    gone and the call fails. *)
Inductive Arrival : Type :=
| Rx (bs : list byte)
| Unplug.

(** The calls the script makes, with their results, in program order. *)
Inductive Call : Type :=
| COpen (path : string) (baudrate timeout : Z)
| CFail
| CInWaiting (n : nat)
| CRead (size : nat) (data : list byte)
| CPrint (s : string)
| CSleep (ms : Z)
| CClose.

Record World : Type := mkWorld {
  clock : Z;               (* wall clock, milliseconds *)
  openable : bool;         (* does serial.Serial(...) succeed *)
  is_open : bool;          (* the handle is held *)
  wire : list Arrival;     (* the future of the line *)
  rxbuf : list byte;       (* bytes buffered by the driver *)
  log : list Call          (* calls made so far, oldest first *)
}.

Definition with_clock (t : Z) (w : World) : World :=
  mkWorld t (openable w) (is_open w) (wire w) (rxbuf w) (log w).
Definition with_open (b : bool) (w : World) : World :=
  mkWorld (clock w) (openable w) b (wire w) (rxbuf w) (log w).
Definition with_wire (l : list Arrival) (w : World) : World :=
  mkWorld (clock w) (openable w) (is_open w) l (rxbuf w) (log w).
Definition with_rxbuf (l : list byte) (w : World) : World :=
  mkWorld (clock w) (openable w) (is_open w) (wire w) l (log w).
Definition record (c : Call) (w : World) : World :=
  mkWorld (clock w) (openable w) (is_open w) (wire w) (rxbuf w) (log w ++ [c]).

(** The world before the script starts, for a clock reading, a port
    that can or cannot be opened, and a line script. *)
Definition boot (t : Z) (ok : bool) (line : list Arrival) : World :=
  mkWorld t ok false line [] [].

(** *** The monad: state, exceptions, and exhausted fuel *)

Inductive Outcome (A : Type) : Type :=
| Ok (a : A)
| Raise (e : exn)
| Diverge.
Arguments Ok {A} a.
Arguments Raise {A} e.
Arguments Diverge {A}.

Definition M (A : Type) : Type := World -> Outcome A * World.

Definition ret {A} (a : A) : M A := fun w => (Ok a, w).

Definition bind {A B} (m : M A) (k : A -> M B) : M B :=
  fun w =>
    match m w with
    | (Ok a, w') => k a w'
    | (Raise e, w') => (Raise e, w')
    | (Diverge, w') => (Diverge, w')
    end.

Definition raise {A} (e : exn) : M A := fun w => (Raise e, record CFail w).

Notation "x <- m ;; k" := (bind m (fun x => k))
  (at level 61, m at next level, right associativity).
Notation "m ;; k" := (bind m (fun _ => k))
  (at level 61, right associativity).

(** [while cond: body], unrolled at most [fuel] times. *)
Fixpoint while (fuel : nat) (cond : M bool) (body : M unit) : M unit :=
  match fuel with
  | O => fun w => (Diverge, w)
  | S fuel' =>
      b <- cond ;;
      if b : bool then body ;; while fuel' cond body else ret tt
  end.

(** *** The library calls *)

Record Port : Type := mkPort {
  port_path : string;
  port_baudrate : Z;
  port_timeout : Z       (* read timeout, milliseconds *)
}.

(** [serial.Serial(path, baudrate=..., timeout=...)] *)
Definition Serial (path : string) (baudrate timeout : Z) : M Port :=
  fun w =>
    if openable w
    then (Ok (mkPort path baudrate timeout),
          record (COpen path baudrate timeout) (with_open true w))
    else raise SerialException w.

(** The line moves on by one step: the driver buffers what arrived,
    or notices that the device is gone. *)
Definition line_step (w : World) : option World :=
  match wire w with
  | [] => Some w
  | Rx bs :: later => Some (with_rxbuf (rxbuf w ++ bs) (with_wire later w))
  | Unplug :: later => None
  end.

Definition unplugged (w : World) : World := with_wire (tl (wire w)) w.

(** [port.in_waiting] *)
Definition in_waiting (port : Port) : M nat :=
  fun w =>
    if is_open w then
      match line_step w with
      | Some w1 =>
          let n := List.length (rxbuf w1) in
          (Ok n, record (CInWaiting n) w1)
      | None => raise SerialException (unplugged w)
      end
    else raise SerialException w.

(** [port.read(size)]: returns at once when [size] bytes are buffered,
    otherwise waits for the port's timeout and returns what is there. *)
Definition read (port : Port) (size : nat) : M (list byte) :=
  fun w =>
    if is_open w then
      match line_step w with
      | Some w1 =>
          if (size <=? List.length (rxbuf w1))%nat then
            let data := firstn size (rxbuf w1) in
            (Ok data,
             record (CRead size data) (with_rxbuf (skipn size (rxbuf w1)) w1))
          else
            let data := rxbuf w1 in
            (Ok data,
             record (CRead size data)
               (with_rxbuf [] (with_clock (clock w1 + port_timeout port) w1)))
      | None => raise SerialException (unplugged w)
      end
    else raise SerialException w.

(** [port.close()] *)
Definition close (port : Port) : M unit :=
  fun w => (Ok tt, record CClose (with_open false w)).

(** An integer as a binary64 float (exact below 2^53). *)
Definition float_of_Z (z : Z) : PrimFloat.float :=
  if (z <? 0)%Z
  then PrimFloat.opp (PrimFloat.of_uint63 (Uint63.of_Z (- z)))
  else PrimFloat.of_uint63 (Uint63.of_Z z).

(** Milliseconds in seconds, as [time.time()] reports them. *)
Definition secs (ms : Z) : PrimFloat.float :=
  PrimFloat.div (float_of_Z ms) (float_of_Z 1000).

(** [time.time()], [time.sleep(...)], [print(...)] *)
Definition time_time : M PrimFloat.float := fun w => (Ok (secs (clock w)), w).

Definition sleep (ms : Z) : M unit :=
  fun w => (Ok tt, record (CSleep ms) (with_clock (clock w + ms) w)).

Definition print (s : string) : M unit :=
  fun w => (Ok tt, record (CPrint s) w).

(** *** Reading a log *)

Definition printed (l : list Call) : list string :=
  flat_map (fun c => match c with CPrint s => [s] | _ => [] end) l.

Definition chunks (l : list Call) : list (list byte) :=
  flat_map (fun c => match c with CRead _ data => [data] | _ => [] end) l.

Definition closes (l : list Call) : nat :=
  List.length (filter (fun c => match c with CClose => true | _ => false end) l).

Definition received_lines (l : list Call) : list string :=
  filter is_received (printed l).

(** All the bytes a line script will ever deliver. *)
Definition stream (l : list Arrival) : list byte :=
  flat_map (fun a => match a with Rx bs => bs | Unplug => [] end) l.

Definition silent (l : list Arrival) : Prop :=
  Forall (fun a => a = Rx []) l.

End Device.

Import Device.

(* ================================================================== *)
(** ** The script *)

Module Monitor.

Definition nl : string := String (ascii_of_nat 10) EmptyString.

Definition POLL : Z := 100.

(** One turn of the loop body:
[[
    if port.in_waiting > 0:
        data = port.read(port.in_waiting)
        print(f"Received: {data.hex()} | ASCII: {data}")
    time.sleep(0.1)
]] *)
Definition tick (port : Port) : M unit :=
  n <- in_waiting port ;;
  (if (0 <? n)%nat then
     size <- in_waiting port ;;
     data <- read port size ;;
     print (received_line data)
   else ret tt) ;;
  sleep POLL.

(** The loop condition, [time.time() - start < W], on floats. *)
Definition in_window (start W : PrimFloat.float) : M bool :=
  now <- time_time ;; ret (PrimFloat.ltb (PrimFloat.sub now start) W).

Definition banner1 : string := "Monitoring /dev/ttyUSB0 for 10 seconds...".
Definition banner2 : string := "Waiting for any data..." ++ nl.
Definition done_msg : string := nl ++ "Done".

(** The whole script, with the length of the window, in seconds, as a
    parameter. *)
Definition capture (W : PrimFloat.float) (fuel : nat) : M unit :=
  port <- Serial "/dev/ttyUSB0" 9600 2000 ;;
  print banner1 ;;
  print banner2 ;;
  start <- time_time ;;
  while fuel (in_window start W) (tick port) ;;
  print done_msg ;;
  close port.

(** The script as written: a window of ten seconds. *)
Definition main (fuel : nat) : M unit := capture (float_of_Z 10) fuel.

End Monitor.

Import Monitor.

(* ================================================================== *)
(** ** Vocabulary for runs and their logs *)

(** The calls of a run before and after its loop. *)
Definition header : list Call :=
  [COpen "/dev/ttyUSB0" 9600 2000; CPrint banner1; CPrint banner2].

Definition footer : list Call := [CPrint done_msg; CClose].

(** The calls of a completed turn: an idle poll, or a poll that found
    [n] bytes, asked again, read [size] bytes and printed them. *)
Inductive turn_done : list Call -> Prop :=
| turn_idle :
    turn_done [CInWaiting 0; CSleep POLL]
| turn_busy (n size : nat) (data : list byte) :
    0 < n -> n <= size -> List.length data = size ->
    turn_done [CInWaiting n; CInWaiting size; CRead size data;
               CPrint (received_line data); CSleep POLL].

(** The calls of a turn cut short by the device failing. *)
Inductive turn_cut : list Call -> Prop :=
| cut_poll :
    turn_cut [CFail]
| cut_size (n : nat) :
    0 < n -> turn_cut [CInWaiting n; CFail]
| cut_read (n size : nat) :
    0 < n -> n <= size -> turn_cut [CInWaiting n; CInWaiting size; CFail].

(** [behind l l']: the line script [l'] is what is left of [l]. *)
Definition behind (l l' : list Arrival) : Prop :=
  exists used, l = (used ++ l')%list.

(** What one turn does to the world, whatever its outcome. *)
Record turn_frame (w w' : World) (delta : list Call) : Prop := {
  fr_open : is_open w' = is_open w;
  fr_openable : openable w' = openable w;
  fr_log : log w' = (log w ++ delta)%list;
  fr_wire : behind (wire w) (wire w');
  fr_bytes :
    (List.concat (chunks delta) ++ rxbuf w' ++ stream (wire w'))%list
    = (rxbuf w ++ stream (wire w))%list
}.

(** What a completed turn takes from the line: the arrivals [used],
    whose bytes it printed together with the bytes it found buffered,
    and at most one arrival [rest], which came during the read and is
    left in the buffer.  Unless the line is used up, at least one
    arrival is taken. *)
Definition turn_intake (w w' : World) (delta : list Call) : Prop :=
  exists used rest,
    wire w = (used ++ rest ++ wire w')%list /\
    List.concat (chunks delta) = (rxbuf w ++ stream used)%list /\
    rxbuf w' = stream rest /\
    List.length rest <= 1 /\
    (wire w = [] \/ 1 <= List.length (used ++ rest)).

Definition turn_post (w : World) (r : Outcome unit) (w' : World) : Prop :=
  exists delta,
    turn_frame w w' delta /\
    match r with
    | Ok _ =>
        turn_done delta /\ clock w' = (clock w + POLL)%Z /\
        turn_intake w w' delta
    | Raise _ => turn_cut delta /\ clock w' = clock w /\ In Unplug (wire w)
    | Diverge => False
    end.

(** The loop test at the clock reading [now], for the floats [start]
    and [W] of the script: [time.time() - start < W]. *)
Definition window_test (start W : PrimFloat.float) (now : Z) : bool :=
  PrimFloat.ltb (PrimFloat.sub (secs now) start) W.



(** Big-step reading of [while test: body], the test read off the clock. *)
Inductive runs (body : M unit) (test : Z -> bool) :
  World -> Outcome unit -> World -> Prop :=
| runs_exit w :
    test (clock w) = false ->
    runs body test w (Ok tt) w
| runs_turn w w1 r w2 :
    test (clock w) = true ->
    body w = (Ok tt, w1) ->
    runs body test w1 r w2 ->
    runs body test w r w2
| runs_raise w e w1 :
    test (clock w) = true ->
    body w = (Raise e, w1) ->
    runs body test w (Raise e) w1
| runs_stuck w w1 :
    test (clock w) = true ->
    body w = (Diverge, w1) ->
    runs body test w Diverge w1
| runs_fuel w :
    runs body test w Diverge w.

(** The calls of the loop and what it leaves behind. *)
Record loop_frame (test : Z -> bool) (w : World) (r : Outcome unit)
  (w' : World) (turns : list (list Call)) (tail : list Call) : Prop := {
  lf_turns : Forall turn_done turns;
  lf_log : log w' = (log w ++ List.concat turns ++ tail)%list;
  lf_open : is_open w' = is_open w;
  lf_openable : openable w' = openable w;
  lf_wire : behind (wire w) (wire w');
  lf_bytes :
    (List.concat (chunks (List.concat turns ++ tail)) ++ rxbuf w'
       ++ stream (wire w'))%list
    = (rxbuf w ++ stream (wire w))%list;
  lf_clock : clock w' = (clock w + POLL * Z.of_nat (List.length turns))%Z;
  lf_live :
    forall j, j < List.length turns ->
              test (clock w + POLL * Z.of_nat j)%Z = true;
  lf_end :
    match r with
    | Ok _ => tail = [] /\ test (clock w') = false
    | Raise _ => turn_cut tail /\ In Unplug (wire w) /\ test (clock w') = true
    | Diverge => tail = []
    end
}.

(** The calls of a run and what it leaves behind, from [boot t true line]. *)
Record run_frame (W : PrimFloat.float) (t : Z) (line : list Arrival)
  (r : Outcome unit) (w' : World) (turns : list (list Call))
  (tail : list Call) : Prop := {
  rf_turns : Forall turn_done turns;
  rf_log : log w' = (header ++ List.concat turns ++ tail)%list;
  rf_bytes :
    (List.concat (chunks (List.concat turns)) ++ rxbuf w' ++ stream (wire w'))%list
    = stream line;
  rf_clock : clock w' = (t + POLL * Z.of_nat (List.length turns))%Z;
  rf_live :
    forall j, j < List.length turns ->
              window_test (secs t) W (t + POLL * Z.of_nat j)%Z = true;
  rf_end :
    match r with
    | Ok _ =>
        tail = footer /\ is_open w' = false /\
        window_test (secs t) W (clock w') = false
    | Raise _ =>
        turn_cut tail /\ is_open w' = true /\ In Unplug line /\
        window_test (secs t) W (clock w') = true
    | Diverge => tail = [] /\ is_open w' = true
    end
}.

Definition port0 : Port := mkPort "/dev/ttyUSB0" 9600 2000.

Definition started (t : Z) (line : list Arrival) : World :=
  mkWorld t true true line [] header.

(** The same world, [d] milliseconds later on the wall clock. *)
Definition shift (d : Z) (w : World) : World := with_clock (clock w + d) w.

(** A computation that does not look at the clock: it does the same
    thing in a shifted world, and leaves the shifted result. *)
Definition steady (d : Z) {A} (m : M A) : Prop :=
  forall w, m (shift d w) = (fst (m w), shift d (snd (m w))).

Definition sleeps (l : list Call) : list Z :=
  flat_map (fun c => match c with CSleep ms => [ms] | _ => [] end) l.

(** A read with the two queries that precede it in the log: the count
    the guard [port.in_waiting > 0] saw, the count the second
    [port.in_waiting] returned, the size passed to [port.read], and the
    length of what the read returned. *)
Record Request : Type := mkRequest {
  guard : nat;
  second : nat;
  asked : nat;
  got : nat
}.

Fixpoint requests (l : list Call) : list Request :=
  match l with
  | [] => []
  | c :: rest =>
      match c, rest with
      | CInWaiting n, CInWaiting m :: CRead size data :: _ =>
          mkRequest n m size (List.length data) :: requests rest
      | _, _ => requests rest
      end
  end.

Definition sound (q : Request) : Prop :=
  0 < guard q /\ guard q <= second q /\ asked q = second q /\ got q = asked q.



(** Opens in a log, and strings put end to end. *)
Definition opens (l : list Call) : nat :=
  List.length
    (filter (fun c => match c with COpen _ _ _ => true | _ => false end) l).

Definition joined (l : list string) : string :=
  fold_right append EmptyString l.

(** A sample chunk. *)
Definition abc : list byte := [x61; x62; x63].

(* ================================================================== *)
(** ** Facts about the renderings *)

Section RenderFacts.

Lemma string_app_assoc (s t u : string) : (s ++ t) ++ u = s ++ (t ++ u).
Proof. induction s as [|c s IH]; simpl; [reflexivity | now rewrite IH]. Qed.

Lemma forallb_string_app (p : ascii -> bool) (s t : string) :
  forallb_string p (s ++ t) = forallb_string p s && forallb_string p t.
Proof.
  induction s as [|c s IH]; simpl; [reflexivity|].
  rewrite IH. now rewrite andb_assoc.
Qed.

Lemma fromhex_hex_byte (b : byte) (s : string) :
  fromhex (hex_byte b ++ s) =
  match fromhex s with Some l => Some (b :: l) | None => None end.
Proof. destruct b; reflexivity. Qed.

Lemma fromhex_hex (data : list byte) : fromhex (hex data) = Some data.
Proof.
  induction data as [|b data IH]; [reflexivity|].
  cbn [hex]. rewrite fromhex_hex_byte, IH. reflexivity.
Qed.

Lemma hex_byte_lower (b : byte) : forallb_string is_lower_hex (hex_byte b) = true.
Proof. destruct b; reflexivity. Qed.

Lemma hex_lower (data : list byte) : forallb_string is_lower_hex (hex data) = true.
Proof.
  induction data as [|b data IH]; [reflexivity|].
  cbn [hex]. now rewrite forallb_string_app, hex_byte_lower, IH.
Qed.

Lemma hex_length (data : list byte) :
  String.length (hex data) = 2 * List.length data.
Proof.
  induction data as [|b data IH]; [reflexivity|].
  cbn [hex List.length]. unfold hex_byte. cbn [append String.length].
  rewrite IH. lia.
Qed.

Lemma lower_hex_printable (s : string) :
  forallb_string is_lower_hex s = true -> forallb_string is_printable s = true.
Proof.
  induction s as [|c s IH]; simpl; [reflexivity|].
  rewrite !andb_true_iff. intros [Hc Hs]. split; [|auto].
  unfold is_lower_hex in Hc. unfold is_printable.
  rewrite orb_true_iff, !andb_true_iff, !N.leb_le in Hc.
  rewrite andb_true_iff, N.leb_le, N.ltb_lt. lia.
Qed.

Lemma until_blank_hex_byte (b : byte) (s : string) :
  until_blank (hex_byte b ++ s) = hex_byte b ++ until_blank s.
Proof. destruct b; reflexivity. Qed.

Lemma until_blank_hex (data : list byte) (s : string) :
  until_blank (hex data ++ String " "%char s) = hex data.
Proof.
  induction data as [|b data IH]; [reflexivity|].
  cbn [hex]. rewrite string_app_assoc, until_blank_hex_byte, IH.
  reflexivity.
Qed.

Lemma is_received_line (data : list byte) : is_received (received_line data) = true.
Proof. reflexivity. Qed.

Lemma hex_field_line (data : list byte) : hex_field (received_line data) = hex data.
Proof.
  unfold hex_field, received_line. cbn [label String.length drop append].
  apply until_blank_hex.
Qed.


Lemma drop_length_app (s t : string) : drop (String.length s) (s ++ t) = t.
Proof. induction s as [|c s IH]; [reflexivity | exact IH]. Qed.

Lemma drop_add (n m : nat) (s : string) : drop (n + m) s = drop m (drop n s).
Proof.
  revert s. induction n as [|n IH]; intros s; [reflexivity|].
  destruct s as [|c s]; cbn [Nat.add drop]; [now destruct m | apply IH].
Qed.

Lemma text_field_line (data : list byte) :
  text_field (received_line data) = bytes_repr data.
Proof.
  unfold text_field. rewrite hex_field_line. unfold received_line.
  rewrite !drop_add.
  change "Received: " with label. rewrite drop_length_app.
  rewrite drop_length_app.
  change " | ASCII: " with separator. apply drop_length_app.
Qed.

Lemma quote_of_cases (data : list byte) :
  quote_of data = squote \/ quote_of data = dquote.
Proof. unfold quote_of. destruct (_ && _); auto. Qed.

Lemma repr_byte_printable (q c : byte) :
  q = squote \/ q = dquote ->
  forallb_string is_printable (repr_byte q c) = true.
Proof. intros [-> | ->]; destruct c; reflexivity. Qed.

Lemma repr_body_printable (q : byte) (data : list byte) :
  q = squote \/ q = dquote ->
  forallb_string is_printable (repr_body q data) = true.
Proof.
  intros Hq. induction data as [|c data IH]; [reflexivity|].
  cbn [repr_body]. now rewrite forallb_string_app, repr_byte_printable, IH.
Qed.

Lemma unrepr_body_byte (q c : byte) (s : string) :
  q = squote \/ q = dquote ->
  unrepr_body (ascii_of_byte q) (repr_byte q c ++ s) =
  match unrepr_body (ascii_of_byte q) s with
  | Some bs => Some (c :: bs)
  | None => None
  end.
Proof. intros [-> | ->]; destruct c; reflexivity. Qed.

Lemma unrepr_body_repr (q : byte) (data : list byte) :
  q = squote \/ q = dquote ->
  unrepr_body (ascii_of_byte q) (repr_body q data ++ chr q) = Some data.
Proof.
  intros Hq. induction data as [|c data IH].
  - destruct Hq as [-> | ->]; reflexivity.
  - cbn [repr_body]. rewrite string_app_assoc, unrepr_body_byte, IH by exact Hq.
    reflexivity.
Qed.

Lemma unrepr_bytes_repr (data : list byte) : unrepr (bytes_repr data) = Some data.
Proof.
  unfold bytes_repr. pose proof (quote_of_cases data) as Hq.
  cbn [append chr unrepr].
  rewrite <- (unrepr_body_repr (quote_of data) data Hq).
  destruct Hq as [-> | ->]; reflexivity.
Qed.


Lemma bytes_repr_printable (data : list byte) :
  forallb_string is_printable (bytes_repr data) = true.
Proof.
  unfold bytes_repr.
  pose proof (quote_of_cases data) as Hq.
  rewrite !forallb_string_app, repr_body_printable by exact Hq.
  destruct Hq as [-> | ->]; reflexivity.
Qed.

Lemma received_line_printable (data : list byte) :
  forallb_string is_printable (received_line data) = true.
Proof.
  unfold received_line.
  rewrite !forallb_string_app, bytes_repr_printable.
  rewrite (lower_hex_printable _ (hex_lower data)). reflexivity.
Qed.

End RenderFacts.

(* ================================================================== *)
(** ** One turn of the loop *)

Section TurnFacts.

Lemma firstn_length_app {A} (l r : list A) : firstn (List.length l) (l ++ r)%list = l.
Proof. induction l as [|a l IH]; simpl; [reflexivity | now rewrite IH]. Qed.

Lemma skipn_length_app {A} (l r : list A) : skipn (List.length l) (l ++ r)%list = r.
Proof. induction l as [|a l IH]; simpl; [reflexivity | exact IH]. Qed.

Lemma stream_app (l r : list Arrival) : stream (l ++ r) = (stream l ++ stream r)%list.
Proof. apply flat_map_app. Qed.

Lemma behind_refl (l : list Arrival) : behind l l.
Proof. now exists []. Qed.

Lemma behind_cons (a : Arrival) (l l' : list Arrival) :
  behind l l' -> behind (a :: l) l'.
Proof. intros [u ->]. now exists (a :: u). Qed.

Lemma behind_app (u l l' : list Arrival) : behind l l' -> behind (u ++ l) l'.
Proof. intros [v ->]. exists (u ++ v)%list. now rewrite app_assoc. Qed.

Lemma behind_trans (l1 l2 l3 : list Arrival) :
  behind l1 l2 -> behind l2 l3 -> behind l1 l3.
Proof. intros [u ->] H. now apply behind_app. Qed.

Lemma behind_In (a : Arrival) (l l' : list Arrival) :
  behind l l' -> In a l' -> In a l.
Proof. intros [u ->] H. apply in_or_app. now right. Qed.

Lemma line_step_cases (w : World) :
  (exists used later,
      wire w = (used ++ later)%list /\
      line_step w =
        Some (mkWorld (clock w) (openable w) (is_open w) later
                (rxbuf w ++ stream used) (log w)) /\
      List.length used <= 1 /\
      (wire w = [] \/ List.length used = 1))
  \/ (exists later,
      wire w = Unplug :: later /\
      line_step w = None /\
      unplugged w =
        mkWorld (clock w) (openable w) (is_open w) later (rxbuf w) (log w)).
Proof.
  destruct w as [c ok o wi rx lg]. unfold line_step, unplugged. simpl.
  destruct wi as [|[bs|] later]; simpl.
  - left. exists [], []. simpl. rewrite app_nil_r. auto.
  - left. exists [Rx bs], later. simpl. rewrite app_nil_r. auto.
  - right. exists later. auto.
Qed.

Ltac fields :=
  cbn [clock openable is_open wire rxbuf log record with_clock
       with_open with_wire with_rxbuf raise fst snd].

Ltac line_moves :=
  match goal with
  | |- context [line_step ?w] =>
      let used := fresh "used" in
      let later := fresh "later" in
      let E := fresh "E" in
      let F := fresh "F" in
      let U := fresh "U" in
      let L := fresh "L" in
      let N := fresh "N" in
      destruct (line_step_cases w)
        as [(used & later & U & E & L & N) | (later & U & E & F)];
      [ rewrite E | rewrite E, F; clear F ];
      clear E; fields;
      cbn [wire record with_clock with_open with_wire with_rxbuf] in *; subst
  end.

Ltac frame_holds :=
  constructor; fields; cbn [chunks flat_map List.concat app];
  [ reflexivity
  | reflexivity
  | rewrite <- ?app_assoc; reflexivity
  | repeat first [apply behind_refl | apply behind_app | apply behind_cons]
  | rewrite ?stream_app, ?app_nil_r, <- ?app_assoc; reflexivity ].

Ltac unplug_seen :=
  fields; repeat (apply in_or_app; right); now left.

Lemma tick_spec (port : Port) (w : World) :
  is_open w = true -> turn_post w (fst (tick port w)) (snd (tick port w)).
Proof.
  intros Ho. destruct w as [c ok o wi rx lg]. simpl in Ho. subst o.
  unfold tick, bind, in_waiting, read, print, sleep, ret.
  cbn [is_open].
  line_moves.
  2:{ exists [CFail].
      split; [frame_holds | split; [constructor | split; [reflexivity | unplug_seen]]]. }
  destruct (Nat.ltb_spec 0 (List.length (rx ++ stream used))) as [Hn | Hn];
    cbv beta; fields.
  2:{ assert (Hz : List.length (rx ++ stream used) = 0) by lia. rewrite Hz.
      apply length_zero_iff_nil in Hz.
      exists [CInWaiting 0; CSleep POLL].
      split; [frame_holds | split; [constructor | split; [reflexivity|]]].
      exists used, []. fields. cbn [chunks flat_map List.concat app].
      rewrite Hz, app_nil_r. repeat split; auto.
      destruct N as [N | N]; [now left | right; lia]. }
  line_moves.
  2:{ exists [CInWaiting (List.length (rx ++ stream used)); CFail].
      split; [frame_holds | split; [constructor; assumption
                                   | split; [reflexivity | unplug_seen]]]. }
  line_moves.
  2:{ exists [CInWaiting (List.length (rx ++ stream used));
              CInWaiting (List.length ((rx ++ stream used) ++ stream used0)); CFail].
      split; [frame_holds | split; [constructor
                                   | split; [reflexivity | unplug_seen]]];
        [assumption | rewrite (length_app _ (stream used0)); lia]. }
  assert (Hle : (List.length ((rx ++ stream used) ++ stream used0)
                 <=? List.length (((rx ++ stream used) ++ stream used0)
                                    ++ stream used1))%nat = true).
  { apply Nat.leb_le. rewrite (length_app _ (stream used1)). lia. }
  rewrite Hle. fields.
  rewrite firstn_length_app, skipn_length_app.
  exists [CInWaiting (List.length (rx ++ stream used));
          CInWaiting (List.length ((rx ++ stream used) ++ stream used0));
          CRead (List.length ((rx ++ stream used) ++ stream used0))
                ((rx ++ stream used) ++ stream used0);
          CPrint (received_line ((rx ++ stream used) ++ stream used0));
          CSleep POLL].
  split; [frame_holds | split; [constructor | split; [reflexivity|]]];
    [assumption | rewrite (length_app _ (stream used0)); lia | reflexivity |].
  exists (used ++ used0)%list, used1. fields.
  cbn [chunks flat_map List.concat app].
  rewrite stream_app, !app_nil_r, <- !app_assoc. repeat split; auto.
  destruct N as [N | N]; [now left | right].
  rewrite !length_app. lia.
Qed.

End TurnFacts.

(* ================================================================== *)
(** ** The loop *)

Section LoopFacts.

Variable port : Port.
Variables start W : PrimFloat.float.

Lemma in_window_eq (w : World) :
  in_window start W w = (Ok (window_test start W (clock w)), w).
Proof. reflexivity. Qed.

Lemma while_S (fuel : nat) (body : M unit) (w : World) :
  while (S fuel) (in_window start W) body w =
  if window_test start W (clock w)
  then (body ;; while fuel (in_window start W) body) w
  else (Ok tt, w).
Proof.
  cbn [while]. unfold bind at 1. rewrite in_window_eq.
  destruct (window_test start W (clock w)); reflexivity.
Qed.

Lemma while_runs (body : M unit) (fuel : nat) (w : World) :
  runs body (window_test start W) w
    (fst (while fuel (in_window start W) body w))
    (snd (while fuel (in_window start W) body w)).
Proof.
  revert w. induction fuel as [|fuel IH]; intros w.
  - apply runs_fuel.
  - rewrite while_S. destruct (window_test start W (clock w)) eqn:Ht.
    + unfold bind. destruct (body w) as [[[] | e |] w1] eqn:Eb; cbn [fst snd].
      * eapply runs_turn; eauto.
      * eapply runs_raise; eauto.
      * eapply runs_stuck; eauto.
    + now apply runs_exit.
Qed.

Lemma chunks_app (l r : list Call) : chunks (l ++ r) = (chunks l ++ chunks r)%list.
Proof. apply flat_map_app. Qed.

Lemma printed_app (l r : list Call) : printed (l ++ r) = (printed l ++ printed r)%list.
Proof. apply flat_map_app. Qed.

Lemma closes_app (l r : list Call) : closes (l ++ r) = closes l + closes r.
Proof. unfold closes. now rewrite filter_app, length_app. Qed.

Lemma sleeps_app (l r : list Call) : sleeps (l ++ r) = (sleeps l ++ sleeps r)%list.
Proof. apply flat_map_app. Qed.

Lemma tick_cases (w : World) :
  is_open w = true ->
  exists r w', tick port w = (r, w') /\ turn_post w r w'.
Proof.
  intros Ho. exists (fst (tick port w)), (snd (tick port w)).
  split; [apply surjective_pairing | now apply tick_spec].
Qed.

Lemma tick_ok (w w1 : World) :
  is_open w = true ->
  tick port w = (Ok tt, w1) ->
  is_open w1 = true /\ clock w1 = (clock w + POLL)%Z.
Proof.
  intros Ho Eb.
  destruct (tick_cases w Ho) as (r0 & w0 & E0 & delta & Hfr & Hend).
  rewrite Eb in E0. injection E0 as <- <-.
  destruct Hend as (_ & Hclk & _). destruct Hfr. split; congruence.
Qed.

Lemma runs_frame (test : Z -> bool) (w : World) (r : Outcome unit) (w' : World) :
  runs (tick port) test w r w' ->
  is_open w = true ->
  exists turns tail, loop_frame test w r w' turns tail.
Proof.
  induction 1 as [w Hge | w w1 r w2 Hlt Eb Hrun IH | w e w1 Hlt Eb
                 | w w1 Hlt Eb | w]; intros Ho.
  - exists [], []. constructor; cbn; rewrite ?app_nil_r; auto using behind_refl.
    + lia.
    + intros j Hj. lia.
  - destruct (tick_cases w Ho) as (r0 & w0 & E0 & delta & Hfr & Hend).
    rewrite Eb in E0. injection E0 as <- <-.
    destruct Hend as (Hdone & Hclk & _). destruct Hfr.
    destruct IH as (turns & tail & Hlf); [congruence|]. destruct Hlf.
    exists (delta :: turns), tail. constructor.
    + now constructor.
    + rewrite lf_log0, fr_log0. cbn [List.concat]. now rewrite <- !app_assoc.
    + congruence.
    + congruence.
    + eapply behind_trans; eauto.
    + rewrite <- fr_bytes0, <- lf_bytes0. cbn [List.concat].
      rewrite <- !app_assoc, !chunks_app, !concat_app, <- !app_assoc.
      reflexivity.
    + rewrite lf_clock0, Hclk. cbn [List.length]. lia.
    + intros [|j] Hj.
      * replace (clock w + POLL * Z.of_nat 0)%Z with (clock w) by lia.
        exact Hlt.
      * replace (clock w + POLL * Z.of_nat (S j))%Z
          with (clock w1 + POLL * Z.of_nat j)%Z by (rewrite Hclk; lia).
        apply lf_live0. cbn [List.length] in Hj. lia.
    + destruct r; auto. destruct lf_end0 as (Hcut & Hin & Ht).
      split; [assumption|]. split; [|assumption].
      eapply behind_In; eauto.
  - destruct (tick_cases w Ho) as (r0 & w0 & E0 & delta & Hfr & Hend).
    rewrite Eb in E0. injection E0 as <- <-.
    destruct Hend as (Hcut & Hclk & Hun). destruct Hfr.
    exists [], delta. constructor; cbn [List.concat app List.length]; auto.
    + rewrite Hclk. lia.
    + intros j Hj. lia.
    + rewrite Hclk. auto.
  - destruct (tick_cases w Ho) as (r0 & w0 & E0 & delta & Hfr & Hend).
    rewrite Eb in E0. injection E0 as <- <-. contradiction.
  - exists [], []. constructor; cbn; rewrite ?app_nil_r; auto using behind_refl.
    + lia.
    + intros j Hj. lia.
Qed.

Lemma while_frame (fuel : nat) (w : World) :
  is_open w = true ->
  exists turns tail,
    loop_frame (window_test start W) w
      (fst (while fuel (in_window start W) (tick port) w))
      (snd (while fuel (in_window start W) (tick port) w)) turns tail.
Proof. intros Ho. eapply runs_frame; [apply while_runs | exact Ho]. Qed.

(** The loop ends within the fuel when the test fails at a reading
    below it. *)
Lemma while_returns (fuel : nat) (w : World) (k : nat) :
  is_open w = true ->
  window_test start W (clock w + POLL * Z.of_nat k) = false ->
  k < fuel ->
  fst (while fuel (in_window start W) (tick port) w) <> Diverge.
Proof.
  revert w k. induction fuel as [|fuel IH]; intros w k Ho Hk Hfuel; [lia|].
  rewrite while_S. destruct (window_test start W (clock w)) eqn:Ht;
    [|discriminate].
  destruct k as [|k].
  { replace (clock w + POLL * Z.of_nat 0)%Z with (clock w) in Hk by lia.
    congruence. }
  unfold bind.
  destruct (tick_cases w Ho) as (r0 & w0 & E0 & delta & Hfr & Hend).
  rewrite E0. destruct r0 as [[] | e |]; cbn [fst]; [|discriminate|contradiction].
  destruct (tick_ok _ _ Ho E0) as (Ho1 & Hclk).
  apply (IH w0 k); [exact Ho1 | | lia].
  replace (clock w0 + POLL * Z.of_nat k)%Z
    with (clock w + POLL * Z.of_nat (S k))%Z by (rewrite Hclk; lia).
  exact Hk.
Qed.

End LoopFacts.

Section TurnCount.


(** The loop cannot go past a reading at which its test fails. *)
Lemma frame_turns_le (test : Z -> bool) (w : World) (r : Outcome unit)
  (w' : World) (turns : list (list Call)) (tail : list Call) (k : nat) :
  loop_frame test w r w' turns tail ->
  test (clock w + POLL * Z.of_nat k)%Z = false ->
  List.length turns <= k.
Proof.
  intros Hlf Hk. destruct (Nat.le_gt_cases (List.length turns) k) as [H | H];
    [exact H|].
  rewrite (lf_live _ _ _ _ _ _ Hlf k H) in Hk. discriminate.
Qed.

End TurnCount.
(* ================================================================== *)
(** ** The whole run *)

Section RunFacts.

Lemma capture_boot (W : PrimFloat.float) (fuel : nat) (t : Z) (line : list Arrival) :
  capture W fuel (boot t true line) =
  match while fuel (in_window (secs t) W) (tick port0) (started t line) with
  | (Ok _, w2) =>
      (Ok tt, record CClose (with_open false (record (CPrint done_msg) w2)))
  | (Raise e, w2) => (Raise e, w2)
  | (Diverge, w2) => (Diverge, w2)
  end.
Proof. reflexivity. Qed.

(** The script's ten seconds are the window of 10000 ms. *)
Lemma main_window (fuel : nat) : main fuel = capture (secs 10000) fuel.
Proof. reflexivity. Qed.

Lemma capture_refused (W : PrimFloat.float) (fuel : nat) (t : Z) (line : list Arrival) :
  capture W fuel (boot t false line) =
  (Raise SerialException, mkWorld t false false line [] [CFail]).
Proof. reflexivity. Qed.

Lemma turn_cut_chunks (tail : list Call) : turn_cut tail -> chunks tail = [].
Proof. now destruct 1. Qed.

Lemma turn_cut_printed (tail : list Call) : turn_cut tail -> printed tail = [].
Proof. now destruct 1. Qed.

Lemma turn_cut_closes (tail : list Call) : turn_cut tail -> closes tail = 0.
Proof. now destruct 1. Qed.

Lemma capture_frame (W : PrimFloat.float) (fuel : nat) (t : Z) (line : list Arrival) :
  exists turns tail,
    run_frame W t line
      (fst (capture W fuel (boot t true line)))
      (snd (capture W fuel (boot t true line))) turns tail.
Proof.
  rewrite capture_boot.
  destruct (while_frame port0 (secs t) W fuel (started t line) eq_refl)
    as (turns & tail & Hlf).
  destruct (while fuel (in_window (secs t) W) (tick port0) (started t line))
    as [[[] | e |] w2]; cbn [fst snd] in *; destruct Hlf;
    cbn [started clock openable is_open wire rxbuf log app] in *.
  - destruct lf_end0 as [-> Hge]. rewrite app_nil_r in *.
    exists turns, footer.
    constructor; cbn [record with_open clock log rxbuf wire is_open]; auto.
    rewrite lf_log0, <- app_assoc. reflexivity.
  - destruct lf_end0 as (Hcut & Hun & Ht).
    exists turns, tail. constructor; auto.
    rewrite <- lf_bytes0, chunks_app, (turn_cut_chunks _ Hcut), app_nil_r.
    reflexivity.
  - subst tail. rewrite app_nil_r in *.
    exists turns, []. constructor; auto.
    now rewrite app_nil_r.
Qed.

Lemma capture_returns (W : PrimFloat.float) (fuel : nat) (t : Z)
  (line : list Arrival) (k : nat) :
  window_test (secs t) W (t + POLL * Z.of_nat k) = false ->
  k < fuel ->
  fst (capture W fuel (boot t true line)) <> Diverge.
Proof.
  intros Hk Hfuel. rewrite capture_boot.
  pose proof (while_returns port0 (secs t) W fuel (started t line) k
                eq_refl Hk Hfuel) as H.
  destruct (while fuel (in_window (secs t) W) (tick port0) (started t line))
    as [[[] | e |] w2]; cbn [fst] in *; congruence.
Qed.







End RunFacts.
(* ================================================================== *)
(** ** Reading the log of a run *)

Section LogFacts.

Lemma received_lines_app (l r : list Call) :
  received_lines (l ++ r) = (received_lines l ++ received_lines r)%list.
Proof. unfold received_lines. now rewrite printed_app, filter_app. Qed.

Lemma turn_done_closes (turn : list Call) : turn_done turn -> closes turn = 0.
Proof. now destruct 1. Qed.

Lemma turn_done_printed (turn : list Call) :
  turn_done turn -> printed turn = map received_line (chunks turn).
Proof. now destruct 1. Qed.

Lemma turn_done_chunks (turn : list Call) :
  turn_done turn -> Forall (fun d => d <> []) (chunks turn).
Proof.
  destruct 1 as [|n size data Hn Hle Hlen]; cbn; constructor; [|constructor].
  intros ->. cbn in Hlen. lia.
Qed.

Lemma turns_closes (turns : list (list Call)) :
  Forall turn_done turns -> closes (List.concat turns) = 0.
Proof.
  induction 1 as [|turn turns Hd _ IH]; [reflexivity|].
  cbn [List.concat]. now rewrite closes_app, IH, (turn_done_closes _ Hd).
Qed.

Lemma turns_printed (turns : list (list Call)) :
  Forall turn_done turns ->
  printed (List.concat turns) = map received_line (chunks (List.concat turns)).
Proof.
  induction 1 as [|turn turns Hd _ IH]; [reflexivity|].
  cbn [List.concat].
  now rewrite printed_app, chunks_app, map_app, IH, (turn_done_printed _ Hd).
Qed.

Lemma turns_chunks (turns : list (list Call)) :
  Forall turn_done turns ->
  Forall (fun d => d <> []) (chunks (List.concat turns)).
Proof.
  induction 1 as [|turn turns Hd _ IH]; [constructor|].
  cbn [List.concat]. rewrite chunks_app. apply Forall_app.
  split; [now apply turn_done_chunks | exact IH].
Qed.

Lemma filter_received_lines (ds : list (list byte)) :
  filter is_received (map received_line ds) = map received_line ds.
Proof.
  induction ds as [|d ds IH]; [reflexivity|].
  cbn [map filter]. now rewrite is_received_line, IH.
Qed.



Lemma turns_received (turns : list (list Call)) :
  Forall turn_done turns ->
  received_lines (List.concat turns)
  = map received_line (chunks (List.concat turns)).
Proof.
  intros H. unfold received_lines.
  now rewrite (turns_printed _ H), filter_received_lines.
Qed.

Lemma tail_cases (W : PrimFloat.float) (t : Z) (line : list Arrival) (r : Outcome unit)
  (w' : World) (turns : list (list Call)) (tail : list Call) :
  run_frame W t line r w' turns tail ->
  chunks tail = [] /\ received_lines tail = [] /\
  closes tail = match r with Ok _ => 1 | _ => 0 end /\
  printed tail = match r with Ok _ => [done_msg] | _ => [] end.
Proof.
  intros [_ _ _ _ _ Hend]. destruct r as [[] | e |].
  - destruct Hend as (-> & _). repeat split.
  - destruct Hend as (Hcut & _). unfold received_lines.
    rewrite (turn_cut_chunks _ Hcut), (turn_cut_printed _ Hcut),
      (turn_cut_closes _ Hcut). repeat split.
  - destruct Hend as (-> & _). repeat split.
Qed.

Lemma concat_nil_nonempty {A} (ds : list (list A)) :
  Forall (fun d => d <> []) ds -> List.concat ds = [] -> ds = [].
Proof.
  destruct 1 as [|d ds Hd _]; [reflexivity|].
  cbn [List.concat]. intros H. apply app_eq_nil in H. tauto.
Qed.

Lemma silent_stream (line : list Arrival) : silent line -> stream line = [].
Proof.
  induction 1 as [|a line Ha _ IH]; [reflexivity|].
  subst a. exact IH.
Qed.

Lemma silent_plugged (line : list Arrival) : silent line -> ~ In Unplug line.
Proof.
  intros H Hin. unfold silent in H. rewrite Forall_forall in H.
  specialize (H _ Hin). discriminate.
Qed.

End LogFacts.
(* ================================================================== *)
(** ** Two runs on the same line *)

Section Shift.

Variable d : Z.



Lemma steady_raise {A} (e : exn) : steady d (@raise A e).
Proof. intros w. reflexivity. Qed.






Lemma steady_close (port : Port) : steady d (close port).
Proof. intros w. reflexivity. Qed.






End Shift.

Section TwoRuns.






End TwoRuns.
(* ================================================================== *)
(** ** What a poll does *)

Section Calls.

Variable port : Port.

Lemma line_step_fields (w w1 : World) :
  line_step w = Some w1 ->
  clock w1 = clock w /\ log w1 = log w /\ is_open w1 = is_open w /\
  exists bs, rxbuf w1 = (rxbuf w ++ bs)%list.
Proof.
  destruct (line_step_cases w)
    as [(used & later & _ & E & _ & _) | (later & _ & E & _)];
    rewrite E; [|discriminate].
  intros H. injection H as <-. cbn. eauto.
Qed.

Lemma in_waiting_ok (w : World) (n : nat) (w1 : World) :
  in_waiting port w = (Ok n, w1) ->
  n = List.length (rxbuf w1) /\
  log w1 = (log w ++ [CInWaiting n])%list /\
  clock w1 = clock w /\ is_open w1 = true.
Proof.
  unfold in_waiting. destruct (is_open w) eqn:Ho; [|discriminate].
  destruct (line_step w) as [w0|] eqn:E; [|discriminate].
  destruct (line_step_fields _ _ E) as (Hc & Hl & Hop & _).
  intros H. injection H as <- <-. cbn. rewrite Hc, Hl, Hop, Ho. auto.
Qed.

Lemma read_ok (w : World) (data : list byte) (w' : World) :
  read port (List.length (rxbuf w)) w = (Ok data, w') ->
  data = rxbuf w /\
  log w' = (log w ++ [CRead (List.length (rxbuf w)) data])%list /\
  clock w' = clock w /\ is_open w' = true.
Proof.
  unfold read. destruct (is_open w) eqn:Ho; [|discriminate].
  destruct (line_step w) as [w0|] eqn:E; [|discriminate].
  destruct (line_step_fields _ _ E) as (Hc & Hl & Hop & bs & Hrx).
  rewrite Hrx.
  assert (Hle : (List.length (rxbuf w) <=? List.length (rxbuf w ++ bs))%nat = true).
  { apply Nat.leb_le. rewrite length_app. lia. }
  rewrite Hle, firstn_length_app. intros H. injection H as <- <-.
  cbn. rewrite Hc, Hl, Hop, Ho. auto.
Qed.

End Calls.

(* ================================================================== *)
(** ** Sleeps and read requests in a log *)

Section TurnShape.

Lemma turn_done_shape (turn : list Call) :
  turn_done turn ->
  exists n mid,
    turn = CInWaiting n :: (mid ++ [CSleep 100])%list /\
    sleeps mid = [] /\
    (chunks mid = [] \/ exists data, chunks mid = [data]).
Proof.
  destruct 1 as [|n size data Hn Hle Hlen].
  - exists 0, []. repeat split. now left.
  - exists n, [CInWaiting size; CRead size data; CPrint (received_line data)].
    repeat split. right. now exists data.
Qed.

Lemma turn_done_sleeps (turn : list Call) : turn_done turn -> sleeps turn = [100%Z].
Proof. now destruct 1. Qed.

Lemma turns_sleeps (turns : list (list Call)) :
  Forall turn_done turns ->
  sleeps (List.concat turns) = repeat 100%Z (List.length turns).
Proof.
  induction 1 as [|turn turns Hd _ IH]; [reflexivity|].
  cbn [List.concat]. rewrite sleeps_app, IH, (turn_done_sleeps _ Hd).
  reflexivity.
Qed.

Lemma turn_cut_sleeps (tail : list Call) : turn_cut tail -> sleeps tail = [].
Proof. now destruct 1. Qed.

Lemma requests_turn (turn rest : list Call) :
  turn_done turn ->
  exists qs,
    requests (turn ++ rest) = (qs ++ requests rest)%list /\
    Forall sound qs /\
    map got qs = map (@List.length byte) (chunks turn).
Proof.
  destruct 1 as [|n size data Hn Hle Hlen].
  - exists []. repeat split. constructor.
  - exists [mkRequest n size size (List.length data)]. repeat split.
    constructor; [|constructor]. repeat split; cbn; auto.
Qed.

Lemma requests_turns (turns : list (list Call)) (rest : list Call) :
  Forall turn_done turns ->
  exists qs,
    requests (List.concat turns ++ rest) = (qs ++ requests rest)%list /\
    Forall sound qs /\
    map got qs = map (@List.length byte) (chunks (List.concat turns)).
Proof.
  induction 1 as [|turn turns Hd _ IH].
  - exists []. repeat split. constructor.
  - destruct IH as (qs & Hq & Hs & Hg).
    destruct (requests_turn turn (List.concat turns ++ rest) Hd)
      as (q1 & Hq1 & Hs1 & Hg1).
    exists (q1 ++ qs)%list. cbn [List.concat].
    rewrite <- app_assoc, Hq1, Hq, chunks_app, !map_app, Hg1, Hg, app_assoc.
    repeat split. now apply Forall_app.
Qed.

Lemma requests_tail (tail : list Call) :
  tail = footer \/ turn_cut tail \/ tail = [] -> requests tail = [].
Proof. intros [-> | [[| |] | ->]]; reflexivity. Qed.

End TurnShape.

(* ================================================================== *)
(** ** The claims *)

(** C1, as stated, fails: a run that opens the port and then meets a
    failing read ends with the exception, and its log has the open but
    no close at all; the handle is still held. *)
Lemma close_skipped_on_error :
  let run := main 200 (boot 0 true [Rx abc; Rx []; Unplug]) in
  fst run = Raise SerialException /\
  log (snd run) = (header ++ [CInWaiting 3; CInWaiting 3; CFail])%list /\
  closes (log (snd run)) <> 1 /\
  is_open (snd run) = true.
Proof. vm_compute. repeat split. discriminate. Qed.

(** C1, amended: in every run that opens the port, the handle is
    closed exactly once when the window completes normally, as the last
    call of the run; when the run ends with an exception after the open
    no close is made and the handle is still held. *)
Theorem closed_once_on_completion
  (W : PrimFloat.float) (fuel : nat) (t : Z) (line : list Arrival) :
  let run := capture W fuel (boot t true line) in
  closes (log (snd run)) = match fst run with Ok _ => 1 | _ => 0 end /\
  is_open (snd run) = match fst run with Ok _ => false | _ => true end /\
  match fst run with
  | Ok _ => exists before, log (snd run) = (before ++ [CClose])%list
  | _ => True
  end.
Proof.
  cbv zeta.
  destruct (capture_frame W fuel t line) as (turns & tail & Hrf).
  destruct (tail_cases _ _ _ _ _ _ _ Hrf) as (_ & _ & Hcl & _).
  destruct Hrf as [Hturns Hlog _ _ _ Hend].
  rewrite Hlog, !closes_app, (turns_closes _ Hturns), Hcl.
  split; [reflexivity|].
  destruct (fst (capture W fuel (boot t true line))) as [[] | e |].
  - destruct Hend as (-> & Ho & _). split; [exact Ho|].
    exists (header ++ List.concat turns ++ [CPrint done_msg])%list.
    now rewrite <- !app_assoc.
  - destruct Hend as (_ & Ho & _). auto.
  - destruct Hend as (_ & Ho). auto.
Qed.




(** C3: when the port cannot be opened the run ends at once with the
    driver's exception: the failed open is the only call, nothing is
    printed (so no "Received" line), and no time has passed. *)
Theorem open_failure_is_fatal
  (W : PrimFloat.float) (fuel : nat) (t : Z) (line : list Arrival) :
  let run := capture W fuel (boot t false line) in
  fst run = Raise SerialException /\
  log (snd run) = [CFail] /\
  printed (log (snd run)) = [] /\
  received_lines (log (snd run)) = [] /\
  clock (snd run) = t.
Proof. cbv zeta. rewrite capture_refused. repeat split. Qed.



(** C5: when the device never delivers a byte, the run (with fuel for
    the polls up to a clock reading at which the loop test fails)
    completes normally, the console shows the two banners and the
    completion message, and no "Received" line. *)
Theorem silent_run_completes
  (W : PrimFloat.float) (fuel : nat) (t : Z) (line : list Arrival) (k : nat) :
  silent line ->
  window_test (secs t) W (t + POLL * Z.of_nat k) = false ->
  k < fuel ->
  let run := capture W fuel (boot t true line) in
  fst run = Ok tt /\
  received_lines (log (snd run)) = [] /\
  printed (log (snd run)) = [banner1; banner2; done_msg].
Proof.
  intros Hsilent Hclosed Hfuel. cbv zeta.
  pose proof (capture_returns W fuel t line k Hclosed Hfuel) as Hret.
  destruct (capture_frame W fuel t line) as (turns & tail & Hrf).
  destruct (tail_cases _ _ _ _ _ _ _ Hrf) as (_ & Hrl & _ & Hpr).
  destruct Hrf as [Hturns Hlog Hbytes _ _ Hend].
  assert (Hnone : chunks (List.concat turns) = []).
  { apply concat_nil_nonempty; [now apply turns_chunks|].
    rewrite (silent_stream _ Hsilent) in Hbytes.
    apply app_eq_nil in Hbytes. tauto. }
  destruct (fst (capture W fuel (boot t true line))) as [[] | e |].
  - split; [reflexivity|].
    rewrite Hlog, !received_lines_app, !printed_app, Hrl, Hpr.
    rewrite (turns_received _ Hturns), (turns_printed _ Hturns), Hnone.
    split; reflexivity.
  - destruct Hend as (_ & _ & Hin & _). exfalso.
    exact (silent_plugged _ Hsilent Hin).
  - congruence.
Qed.

(** The script on a line of three empty arrivals, started at 6.016 s:
    the test fails at the 101st reading after the start. *)
Lemma silent_run_completes_witness :
  silent [Rx []; Rx []; Rx []] /\
  window_test (secs 6016) (float_of_Z 10) (6016 + POLL * Z.of_nat 101) = false /\
  101 < 102 /\
  fst (capture (float_of_Z 10) 102 (boot 6016 true [Rx []; Rx []; Rx []])) = Ok tt /\
  received_lines (log (snd (capture (float_of_Z 10) 102 (boot 6016 true [Rx []; Rx []; Rx []])))) = [] /\
  printed (log (snd (capture (float_of_Z 10) 102 (boot 6016 true [Rx []; Rx []; Rx []]))))
  = [banner1; banner2; done_msg].
Proof.
  assert (H1 : silent [Rx []; Rx []; Rx []]) by (repeat constructor).
  assert (H2 : window_test (secs 6016) (float_of_Z 10)
                 (6016 + POLL * Z.of_nat 101) = false)
    by (vm_compute; reflexivity).
  assert (H3 : 101 < 102) by lia.
  split; [exact H1|]. split; [exact H2|]. split; [exact H3|].
  exact (silent_run_completes (float_of_Z 10) 102 6016
           [Rx []; Rx []; Rx []] 101 H1 H2 H3).
Defined.

(** C6: a turn of the loop begins by asking the driver how many bytes
    it has buffered.  If the answer is zero the turn makes no read.  If
    it is positive the turn asks again and reads that many bytes: the
    read returns exactly the bytes that were buffered when the count
    was taken, as one chunk, and without waiting (the clock does not
    move across the read). *)
Theorem poll_reads_what_is_buffered (port : Port) (w : World) :
  is_open w = true ->
  fst (tick port w) = Ok tt ->
  exists n w1,
    in_waiting port w = (Ok n, w1) /\
    n = List.length (rxbuf w1) /\
    if (0 <? n)%nat then
      exists size w2 data w3,
        in_waiting port w1 = (Ok size, w2) /\
        size = List.length (rxbuf w2) /\
        read port size w2 = (Ok data, w3) /\
        data = rxbuf w2 /\
        clock w3 = clock w2 /\
        log (snd (tick port w)) =
          (log w ++ [CInWaiting n; CInWaiting size; CRead size data;
                     CPrint (received_line data); CSleep POLL])%list
    else
      log (snd (tick port w)) = (log w ++ [CInWaiting 0; CSleep POLL])%list.
Proof.
  intros Ho Hok. unfold tick, bind in *.
  destruct (in_waiting port w) as [[n | e |] w1] eqn:E1; cbn [fst] in Hok;
    [|discriminate|discriminate].
  destruct (in_waiting_ok _ _ _ _ E1) as (Hn & Hl1 & Hc1 & Ho1).
  exists n, w1. split; [reflexivity|]. split; [exact Hn|].
  destruct (Nat.ltb_spec 0 n) as [Hpos | Hzero].
  - destruct (in_waiting port w1) as [[size | e |] w2] eqn:E2; cbn [fst] in Hok;
      [|discriminate|discriminate].
    destruct (in_waiting_ok _ _ _ _ E2) as (Hs & Hl2 & Hc2 & Ho2).
    destruct (read port size w2) as [[data | e |] w3] eqn:E3; cbn [fst] in Hok;
      [|discriminate|discriminate].
    exists size, w2, data, w3.
    pose proof E3 as E3'. rewrite Hs in E3'.
    destruct (read_ok _ _ _ _ E3') as (Hd & Hl3 & Hc3 & Ho3).
    repeat split; auto.
    cbn. rewrite Hl3, Hl2, Hl1, <- Hs, <- !app_assoc. reflexivity.
  - assert (n = 0) as -> by lia.
    cbn. rewrite Hl1, <- app_assoc. reflexivity.
Qed.

(** A turn that finds three bytes at the guard and four at the size. *)
Lemma poll_reads_what_is_buffered_witness :
  is_open (started 0 [Rx abc; Rx [x0a]]) = true /\
  fst (tick port0 (started 0 [Rx abc; Rx [x0a]])) = Ok tt /\
  exists n w1,
    in_waiting port0 (started 0 [Rx abc; Rx [x0a]]) = (Ok n, w1) /\
    n = List.length (rxbuf w1) /\
    if (0 <? n)%nat then
      exists size w2 data w3,
        in_waiting port0 w1 = (Ok size, w2) /\
        size = List.length (rxbuf w2) /\
        read port0 size w2 = (Ok data, w3) /\
        data = rxbuf w2 /\
        clock w3 = clock w2 /\
        log (snd (tick port0 (started 0 [Rx abc; Rx [x0a]]))) =
          (log (started 0 [Rx abc; Rx [x0a]])
             ++ [CInWaiting n; CInWaiting size; CRead size data;
                 CPrint (received_line data); CSleep POLL])%list
    else
      log (snd (tick port0 (started 0 [Rx abc; Rx [x0a]]))) =
        (log (started 0 [Rx abc; Rx [x0a]])
           ++ [CInWaiting 0; CSleep POLL])%list.
Proof.
  assert (H1 : is_open (started 0 [Rx abc; Rx [x0a]]) = true) by reflexivity.
  assert (H2 : fst (tick port0 (started 0 [Rx abc; Rx [x0a]])) = Ok tt)
    by reflexivity.
  split; [exact H1|]. split; [exact H2|].
  exact (poll_reads_what_is_buffered port0 (started 0 [Rx abc; Rx [x0a]]) H1 H2).
Defined.

(** C7, as stated, fails on the text: a chunk holding a line feed is
    printed with the two characters of its escape, not with the line
    feed itself; the printed line has no unprintable character, the
    raw text of the chunk has one. *)
Lemma text_is_escaped_not_raw :
  let w' := snd (main 200 (boot 0 true [Rx [x0a]])) in
  received_lines (log w') = ["Received: 0a | ASCII: b'\n'"] /\
  received_lines (log w')
    <> ["Received: " ++ hex [x0a] ++ " | ASCII: " ++ raw_text [x0a]] /\
  forallb_string is_printable (raw_text [x0a]) = false /\
  forallb_string is_printable (bytes_repr [x0a]) = true.
Proof. vm_compute. repeat split. discriminate. Qed.

(** C7, amended: each chunk read is printed on one line that holds two
    renderings of the same bytes: lowercase hexadecimal, two digits per
    byte, and the bytes literal [b'...'], from which the chunk can be
    read back.  Every character of the line is printable ASCII:
    unprintable bytes appear as escapes, never verbatim, and the line
    has no line break in it. *)
Theorem line_has_hex_and_literal
  (W : PrimFloat.float) (fuel : nat) (t : Z) (ok : bool) (line : list Arrival) :
  let w' := snd (capture W fuel (boot t ok line)) in
  received_lines (log w') = map received_line (chunks (log w')) /\
  Forall (fun data =>
            hex_field (received_line data) = hex data /\
            forallb_string is_lower_hex (hex data) = true /\
            String.length (hex data) = 2 * List.length data /\
            fromhex (hex data) = Some data /\
            text_field (received_line data) = bytes_repr data /\
            unrepr (bytes_repr data) = Some data /\
            forallb_string is_printable (received_line data) = true)
    (chunks (log w')).
Proof.
  cbv zeta. split.
  - destruct ok.
    + destruct (capture_frame W fuel t line) as (turns & tail & Hrf).
      destruct (tail_cases _ _ _ _ _ _ _ Hrf) as (Hch & Hrl & _ & _).
      destruct Hrf as [Hturns Hlog _ _ _ _].
      rewrite Hlog, !received_lines_app, !chunks_app, Hch, Hrl.
      change (chunks header) with (@nil (list byte)).
      change (received_lines header) with (@nil string).
      cbn [app]. rewrite !app_nil_r. apply (turns_received _ Hturns).
    + rewrite capture_refused. reflexivity.
  - apply Forall_forall. intros data _.
    repeat split.
    + apply hex_field_line.
    + apply hex_lower.
    + apply hex_length.
    + apply fromhex_hex.
    + apply text_field_line.
    + apply unrepr_bytes_repr.
    + apply received_line_printable.
Qed.

(** C8: every turn of the loop that completes ends with a sleep of
    100 ms, its only sleep and its last call, whether the poll found
    nothing (the turn is the poll and the sleep) or found data (the
    turn is the poll, the second query, the read, the print and the
    sleep); the clock moves by exactly 100 ms over the turn, so that
    the next poll comes 100 ms later. *)
Theorem sleeps_after_every_poll (port : Port) (w : World) :
  is_open w = true ->
  fst (tick port w) = Ok tt ->
  let w' := snd (tick port w) in
  exists n before,
    log w' = (log w ++ CInWaiting n :: before ++ [CSleep 100])%list /\
    sleeps before = [] /\
    ((n = 0 /\ before = []) \/
     (0 < n /\ exists size data,
         before = [CInWaiting size; CRead size data;
                   CPrint (received_line data)])) /\
    clock w' = (clock w + 100)%Z.
Proof.
  intros Ho Hok. cbv zeta.
  destruct (tick_cases port w Ho) as (r0 & w0 & E0 & delta & Hfr & Hend).
  rewrite E0 in *. cbn [fst snd] in *. subst r0.
  destruct Hend as (Hdone & Hclk & _). destruct Hfr as [_ _ Hlog _ _].
  rewrite Hlog. destruct Hdone as [|n size data Hn Hle Hlen].
  - exists 0, []. repeat split; auto.
  - exists n, [CInWaiting size; CRead size data; CPrint (received_line data)].
    repeat split; auto. right. split; [exact Hn|]. now exists size, data.
Qed.

(** A turn in which the poll finds nothing: it still sleeps. *)
Lemma sleeps_after_every_poll_witness :
  is_open (started 0 [Rx []]) = true /\
  fst (tick port0 (started 0 [Rx []])) = Ok tt /\
  exists n before,
    log (snd (tick port0 (started 0 [Rx []])))
    = (log (started 0 [Rx []]) ++ CInWaiting n :: before ++ [CSleep 100])%list /\
    sleeps before = [] /\
    ((n = 0 /\ before = []) \/
     (0 < n /\ exists size data,
         before = [CInWaiting size; CRead size data;
                   CPrint (received_line data)])) /\
    clock (snd (tick port0 (started 0 [Rx []])))
    = (clock (started 0 [Rx []]) + 100)%Z.
Proof.
  assert (H1 : is_open (started 0 [Rx []]) = true) by reflexivity.
  assert (H2 : fst (tick port0 (started 0 [Rx []])) = Ok tt) by reflexivity.
  split; [exact H1|]. split; [exact H2|].
  exact (sleeps_after_every_poll port0 (started 0 [Rx []]) H1 H2).
Defined.




(** C10, as stated, fails on the count: the guard and the argument of
    the read are two queries, and bytes can reach the driver between
    them.  Here one byte is buffered at the guard and two when the size
    is taken; the read asks for two. *)
Lemma read_size_is_queried_again :
  let w' := snd (main 200 (boot 0 true [Rx [x61]; Rx [x62]])) in
  requests (log w') = [mkRequest 1 2 2 2] /\
  chunks (log w') = [[x61; x62]] /\
  ~ Forall (fun q => asked q = guard q) (requests (log w')).
Proof.
  vm_compute. repeat split. intros H. inversion H. discriminate.
Qed.

(** C10, amended: every chunk printed in a "Received" line is
    non-empty.  Every read of a run comes after a guard query whose
    count is greater than zero and after a second query; the read asks
    for exactly the count the second query returned, which is at least
    the guard count, and returns exactly that many bytes. *)
Theorem printed_chunks_nonempty
  (W : PrimFloat.float) (fuel : nat) (t : Z) (ok : bool) (line : list Arrival) :
  let w' := snd (capture W fuel (boot t ok line)) in
  received_lines (log w') = map received_line (chunks (log w')) /\
  Forall (fun data => 0 < List.length data) (chunks (log w')) /\
  Forall (fun q => 0 < guard q /\ guard q <= second q /\
                   asked q = second q /\ got q = asked q)
    (requests (log w')) /\
  map got (requests (log w')) = map (@List.length byte) (chunks (log w')).
Proof.
  cbv zeta. destruct ok.
  - destruct (capture_frame W fuel t line) as (turns & tail & Hrf).
    destruct (tail_cases _ _ _ _ _ _ _ Hrf) as (Hch & Hrl & _ & _).
    destruct Hrf as [Hturns Hlog _ _ _ Hend].
    assert (Htail : requests tail = []).
    { apply requests_tail.
      destruct (fst (capture W fuel (boot t true line))) as [[] | e |];
        intuition. }
    destruct (requests_turns turns tail Hturns) as (qs & Hq & Hs & Hg).
    rewrite Hlog.
    change (requests (header ++ List.concat turns ++ tail))
      with (requests (List.concat turns ++ tail)).
    rewrite Hq, Htail, app_nil_r, !received_lines_app, !chunks_app, Hch, Hrl.
    change (chunks header) with (@nil (list byte)).
    change (received_lines header) with (@nil string).
    cbn [app]. rewrite !app_nil_r, (turns_received _ Hturns).
    repeat split; auto.
    eapply Forall_impl; [|exact (turns_chunks _ Hturns)].
    intros [|b d] Hd; [congruence | cbn; lia].
  - rewrite capture_refused. cbn. repeat split; constructor.
Qed.

(* ================================================================== *)
(** ** Further properties of the script *)

Section Further.

Lemma hex_app (a b : list byte) : hex (a ++ b) = hex a ++ hex b.
Proof.
  induction a as [|x a IH]; [reflexivity|].
  cbn [app hex]. now rewrite IH, string_app_assoc.
Qed.

Lemma joined_hex (ds : list (list byte)) :
  joined (map hex ds) = hex (List.concat ds).
Proof.
  induction ds as [|d ds IH]; [reflexivity|].
  cbn [map joined fold_right List.concat]. fold (joined (map hex ds)).
  now rewrite IH, hex_app.
Qed.

Lemma hex_field_lines (ds : list (list byte)) :
  map hex_field (map received_line ds) = map hex ds.
Proof.
  induction ds as [|d ds IH]; [reflexivity|].
  cbn [map]. now rewrite hex_field_line, IH.
Qed.

Lemma opens_app (l r : list Call) : opens (l ++ r) = opens l + opens r.
Proof. unfold opens. now rewrite filter_app, length_app. Qed.

Lemma turns_opens (turns : list (list Call)) :
  Forall turn_done turns -> opens (List.concat turns) = 0.
Proof.
  induction 1 as [|turn turns Hd _ IH]; [reflexivity|].
  cbn [List.concat]. rewrite opens_app, IH. now destruct Hd.
Qed.

Lemma run_log_parts (W : PrimFloat.float) (fuel : nat) (t : Z) (ok : bool) (line : list Arrival) :
  let run := capture W fuel (boot t ok line) in
  printed (log (snd run)) =
    ((if ok then [banner1; banner2] else [])
       ++ map received_line (chunks (log (snd run)))
       ++ match fst run with Ok _ => [done_msg] | _ => [] end)%list.
Proof.
  cbv zeta. destruct ok; [|now rewrite capture_refused].
  destruct (capture_frame W fuel t line) as (turns & tail & Hrf).
  destruct (tail_cases _ _ _ _ _ _ _ Hrf) as (Hch & _ & _ & Hpr).
  destruct Hrf as [Hturns Hlog _ _ _ _].
  rewrite Hlog, !printed_app, !chunks_app, Hch, Hpr, (turns_printed _ Hturns).
  change (chunks header) with (@nil (list byte)).
  change (printed header) with [banner1; banner2].
  cbn [app]. rewrite app_nil_r.
  destruct (fst (capture W fuel (boot t true line))); reflexivity.
Qed.

Lemma in_waiting_grows (port : Port) (w : World) (n : nat) (w1 : World) :
  in_waiting port w = (Ok n, w1) ->
  exists bs, rxbuf w1 = (rxbuf w ++ bs)%list.
Proof.
  unfold in_waiting. destruct (is_open w); [|discriminate].
  destruct (line_step w) as [w0|] eqn:E; [|discriminate].
  destruct (line_step_fields _ _ E) as (_ & _ & _ & bs & Hrx).
  intros H. injection H as <- <-. now exists bs.
Qed.

Lemma string_length_app (a b : string) :
  String.length (a ++ b) = String.length a + String.length b.
Proof. induction a as [|c a IH]; [reflexivity | cbn; now rewrite IH]. Qed.

Lemma repr_byte_length (q c : byte) :
  q = squote \/ q = dquote ->
  1 <= String.length (repr_byte q c) <= 4.
Proof.
  intros Hq.
  assert (H : ((1 <=? String.length (repr_byte q c))
               && (String.length (repr_byte q c) <=? 4))%nat = true).
  { destruct Hq as [-> | ->]; destruct c; reflexivity. }
  apply andb_true_iff in H. destruct H as [H1 H2].
  apply Nat.leb_le in H1, H2. lia.
Qed.

Lemma repr_body_length (q : byte) (data : list byte) :
  q = squote \/ q = dquote ->
  List.length data <= String.length (repr_body q data) <= 4 * List.length data.
Proof.
  intros Hq. induction data as [|c data IH]; [cbn; lia|].
  cbn [repr_body List.length]. rewrite string_length_app.
  pose proof (repr_byte_length q c Hq). lia.
Qed.

Lemma turn_cut_last (tail : list Call) :
  turn_cut tail -> exists before, tail = (before ++ [CFail])%list.
Proof.
  destruct 1 as [|n Hn|n size Hn Hle].
  - now exists [].
  - now exists [CInWaiting n].
  - now exists [CInWaiting n; CInWaiting size].
Qed.

End Further.



(** X3: the console of every run is, in this order: the two banners
    (when the port opened), one "Received" line per chunk read, and the
    completion message exactly when the run completes normally.  A run
    that ends with an exception prints no completion message. *)
Theorem console_shape (W : PrimFloat.float) (fuel : nat) (t : Z) (ok : bool) (line : list Arrival) :
  let run := capture W fuel (boot t ok line) in
  printed (log (snd run)) =
    ((if ok then [banner1; banner2] else [])
       ++ map received_line (chunks (log (snd run)))
       ++ match fst run with Ok _ => [done_msg] | _ => [] end)%list /\
  (In done_msg (printed (log (snd run))) <-> fst run = Ok tt).
Proof.
  cbv zeta. pose proof (run_log_parts W fuel t ok line) as Hp. cbv zeta in Hp.
  split; [exact Hp|]. rewrite Hp.
  assert (Hno : forall ds, ~ In done_msg (map received_line ds)).
  { intros ds Hin. apply in_map_iff in Hin. destruct Hin as (d & Hd & _).
    pose proof (is_received_line d) as Hr. rewrite Hd in Hr. discriminate. }
  split.
  - intros Hin. apply in_app_or in Hin. destruct Hin as [Hin | Hin].
    + destruct ok; cbn in Hin; [|contradiction].
      destruct Hin as [H | [H | []]]; discriminate.
    + apply in_app_or in Hin. destruct Hin as [Hin | Hin];
        [now apply Hno in Hin|].
      destruct (fst (capture W fuel (boot t ok line))) as [[] | e |];
        [reflexivity | contradiction | contradiction].
  - intros ->. apply in_or_app. right. apply in_or_app. right. now left.
Qed.

(** X4: in every run in which the port opens, the open is the first
    call of the run, with the path, the baud rate and the timeout of
    the script, and the port is never opened a second time. *)
Theorem opened_once_first (W : PrimFloat.float) (fuel : nat) (t : Z) (line : list Arrival) :
  let w' := snd (capture W fuel (boot t true line)) in
  opens (log w') = 1 /\
  exists rest,
    log w' = COpen "/dev/ttyUSB0" 9600 2000 :: rest /\ opens rest = 0.
Proof.
  cbv zeta.
  destruct (capture_frame W fuel t line) as (turns & tail & Hrf).
  destruct Hrf as [Hturns Hlog _ _ _ Hend].
  assert (Htail : opens tail = 0).
  { destruct (fst (capture W fuel (boot t true line))) as [[] | e |].
    - now destruct Hend as (-> & _).
    - destruct Hend as (Hcut & _). now destruct Hcut.
    - now destruct Hend as (-> & _). }
  rewrite Hlog, !opens_app, (turns_opens _ Hturns), Htail.
  split; [reflexivity|].
  exists ([CPrint banner1; CPrint banner2] ++ List.concat turns ++ tail)%list.
  split; [reflexivity|].
  now rewrite !opens_app, (turns_opens _ Hturns), Htail.
Qed.

(** X5: the hexadecimal fields of the "Received" lines, put end to
    end, are the hexadecimal rendering of all the bytes read: how the
    bytes were cut into chunks does not show in the digits. *)
Theorem hex_fields_join (W : PrimFloat.float) (fuel : nat) (t : Z) (ok : bool) (line : list Arrival) :
  let w' := snd (capture W fuel (boot t ok line)) in
  joined (map hex_field (received_lines (log w')))
  = hex (List.concat (chunks (log w'))).
Proof.
  cbv zeta.
  assert (Hr : received_lines (log (snd (capture W fuel (boot t ok line))))
               = map received_line
                   (chunks (log (snd (capture W fuel (boot t ok line)))))).
  { unfold received_lines.
    pose proof (run_log_parts W fuel t ok line) as Hp. cbv zeta in Hp.
    rewrite Hp, !filter_app, filter_received_lines.
    destruct (fst (capture W fuel (boot t ok line))) as [[] | e |], ok;
      cbn [filter app]; try (rewrite app_nil_r); reflexivity. }
  rewrite Hr, hex_field_lines. apply joined_hex.
Qed.

(** X6: a turn that completes does not leave behind bytes that were
    buffered when it started: if the buffer was not empty, the turn
    reads and prints one chunk that begins with those bytes; and a turn
    makes no read only when nothing was buffered. *)
Theorem buffered_bytes_are_printed (port : Port) (w : World) :
  is_open w = true ->
  fst (tick port w) = Ok tt ->
  (rxbuf w <> [] ->
   exists more, chunks (log (snd (tick port w)))
                = (chunks (log w) ++ [(rxbuf w ++ more)%list])%list /\
                printed (log (snd (tick port w)))
                = (printed (log w) ++ [received_line (rxbuf w ++ more)])%list) /\
  (chunks (log (snd (tick port w))) = chunks (log w) -> rxbuf w = []).
Proof.
  intros Ho Hok. unfold tick, bind in *.
  destruct (in_waiting port w) as [[n | e |] w1] eqn:E1; cbn [fst] in Hok;
    [|discriminate|discriminate].
  destruct (in_waiting_ok _ _ _ _ E1) as (Hn & Hl1 & _ & _).
  destruct (in_waiting_grows _ _ _ _ E1) as (bs1 & Hrx1).
  destruct (Nat.ltb_spec 0 n) as [Hpos | Hzero].
  - destruct (in_waiting port w1) as [[size | e |] w2] eqn:E2; cbn [fst] in Hok;
      [|discriminate|discriminate].
    destruct (in_waiting_ok _ _ _ _ E2) as (Hs & Hl2 & _ & _).
    destruct (in_waiting_grows _ _ _ _ E2) as (bs2 & Hrx2).
    destruct (read port size w2) as [[data | e |] w3] eqn:E3; cbn [fst] in Hok;
      [|discriminate|discriminate].
    pose proof E3 as E3'. rewrite Hs in E3'.
    destruct (read_ok _ _ _ _ E3') as (Hd & Hl3 & _ & _).
    assert (Hdata : data = (rxbuf w ++ bs1 ++ bs2)%list).
    { rewrite Hd, Hrx2, Hrx1. now rewrite <- app_assoc. }
    cbn [snd print sleep record with_clock log fst].
    rewrite Hl3, Hl2, Hl1, <- Hs, !chunks_app, !printed_app.
    cbn [chunks printed flat_map app]. rewrite !app_nil_r. split.
    + intros _. exists (bs1 ++ bs2)%list. rewrite <- Hdata.
      split; reflexivity.
    + intros Heq. exfalso.
      assert (Hlen : List.length (chunks (log w) ++ [data])
                     = List.length (chunks (log w))) by now rewrite Heq.
      rewrite length_app in Hlen. cbn in Hlen. lia.
  - assert (n = 0) as -> by lia. split.
    + intros Hne. exfalso. apply Hne.
      symmetry in Hn. apply length_zero_iff_nil in Hn.
      rewrite Hrx1 in Hn. apply app_eq_nil in Hn. tauto.
    + intros _. symmetry in Hn. apply length_zero_iff_nil in Hn.
      rewrite Hrx1 in Hn. apply app_eq_nil in Hn. tauto.
Qed.

(** A turn that starts with three bytes buffered and receives one more. *)
Lemma buffered_bytes_are_printed_witness :
  is_open (mkWorld 0 true true [Rx [x0a]] abc header) = true /\
  fst (tick port0 (mkWorld 0 true true [Rx [x0a]] abc header)) = Ok tt /\
  (abc <> [] ->
   exists more,
     chunks (log (snd (tick port0 (mkWorld 0 true true [Rx [x0a]] abc header))))
     = (chunks header ++ [(abc ++ more)%list])%list /\
     printed (log (snd (tick port0 (mkWorld 0 true true [Rx [x0a]] abc header))))
     = (printed header ++ [received_line (abc ++ more)])%list) /\
  (chunks (log (snd (tick port0 (mkWorld 0 true true [Rx [x0a]] abc header))))
   = chunks header -> abc = []).
Proof.
  assert (H1 : is_open (mkWorld 0 true true [Rx [x0a]] abc header) = true)
    by reflexivity.
  assert (H2 : fst (tick port0 (mkWorld 0 true true [Rx [x0a]] abc header)) = Ok tt)
    by reflexivity.
  split; [exact H1|]. split; [exact H2|].
  exact (buffered_bytes_are_printed port0
           (mkWorld 0 true true [Rx [x0a]] abc header) H1 H2).
Defined.

(** X8: the line printed for a chunk of [n] bytes has at least
    [3 * n + 23] and at most [6 * n + 23] characters: the label and the
    separator, two digits per byte, and a literal of one to four
    characters per byte between its quotes. *)
Theorem received_line_length (data : list byte) :
  3 * List.length data + 23 <= String.length (received_line data)
  /\ String.length (received_line data) <= 6 * List.length data + 23.
Proof.
  unfold received_line, bytes_repr.
  rewrite !string_length_app, hex_length.
  pose proof (repr_body_length (quote_of data) data (quote_of_cases data)).
  cbn [String.length chr]. lia.
Qed.

(** X9: a run that ends with the driver's exception ends at the failed
    call: it is the last call of the log, the turn it belongs to did
    not sleep (the clock is the start plus 100 ms per sleep made), the
    loop test held when that turn began, and the line did lose the
    device. *)
Theorem failure_ends_run_at_the_call
  (W : PrimFloat.float) (fuel : nat) (t : Z) (line : list Arrival) (e : exn) :
  fst (capture W fuel (boot t true line)) = Raise e ->
  let w' := snd (capture W fuel (boot t true line)) in
  (exists before, log w' = (before ++ [CFail])%list) /\
  clock w' = (t + 100 * Z.of_nat (List.length (sleeps (log w'))))%Z /\
  window_test (secs t) W (clock w') = true /\
  In Unplug line.
Proof.
  intros Hr. cbv zeta.
  destruct (capture_frame W fuel t line) as (turns & tail & Hrf).
  destruct Hrf as [Hturns Hlog _ Hclk _ Hend]. rewrite Hr in Hend.
  destruct Hend as (Hcut & _ & Hin & Ht).
  split; [|split; [|split; [exact Ht | exact Hin]]].
  - destruct (turn_cut_last _ Hcut) as (before & ->).
    exists (header ++ List.concat turns ++ before)%list.
    rewrite Hlog. now rewrite <- !app_assoc.
  - rewrite Hlog, !sleeps_app, (turns_sleeps _ Hturns), (turn_cut_sleeps _ Hcut).
    change (sleeps header) with (@nil Z). cbn [app].
    rewrite app_nil_r, repeat_length. exact Hclk.
Qed.

(** The script on a line that loses the device at the second poll. *)
Lemma failure_ends_run_at_the_call_witness :
  fst (capture (float_of_Z 10) 101 (boot 0 true [Rx []; Unplug])) = Raise SerialException /\
  (exists before,
      log (snd (capture (float_of_Z 10) 101 (boot 0 true [Rx []; Unplug])))
      = (before ++ [CFail])%list) /\
  clock (snd (capture (float_of_Z 10) 101 (boot 0 true [Rx []; Unplug])))
  = (0 + 100 * Z.of_nat
           (List.length (sleeps (log (snd (capture (float_of_Z 10) 101 (boot 0 true [Rx []; Unplug])))))))%Z /\
  window_test (secs 0) (float_of_Z 10)
    (clock (snd (capture (float_of_Z 10) 101 (boot 0 true [Rx []; Unplug])))) = true /\
  In Unplug [Rx []; Unplug].
Proof.
  assert (H1 : fst (capture (float_of_Z 10) 101 (boot 0 true [Rx []; Unplug]))
               = Raise SerialException) by (vm_compute; reflexivity).
  split; [exact H1|].
  exact (failure_ends_run_at_the_call (float_of_Z 10) 101 0 [Rx []; Unplug]
           SerialException H1).
Defined.

